(** * The data-access layer of nodeJs-Template ([src/utils/dbUtils.js])

    A shallow embedding of the query-building helpers of [dbUtils.js]
    (the copy that exports its functions as one default object and whose
    [getEntry] knows the [maxEntries] option), together with the properties
    of the statements they hand to the connection pool and of the values
    and errors they give back.

    - A JavaScript object used as a map is the list of its own enumerable
      properties in enumeration order, which is what [Object.keys],
      [Object.values] and [Object.entries] walk through.
    - The connection pool is an argument of every operation, as in the
      source.  What the database answers is not part of the repository, so
      a pool is any function from a statement and a store to an outcome
      (a result or an error) and a new store.
    - [async] functions become computations over a world that holds the
      store behind the pool, the statements issued so far and the lines
      written to the console; a rejected promise that is awaited is a
      thrown completion. *)

From stdpp Require Import base list strings pretty.

(** ** JavaScript values *)

(** The scalar values a caller puts into condition, update and data maps.
    Numbers are the integers; NaN, the infinities and fractions are not
    modelled.  The decimal numeral [toString] gives a number is the one
    JavaScript produces for the safe integers, those of magnitude at most
    2^53 - 1.  The theorems below name the text of a number they do not
    know as [toString] of it and spell out numerals for given numbers
    only, so none of them rests on the numeral of an unsafe integer. *)
Inductive JsValue : Type :=
| JsUndefined
| JsNull
| JsBool (b : bool)
| JsNumber (z : Z)
| JsString (s : string).

(** [ToBoolean], as used by [?:], [&&], [||] and [if]. *)
Definition truthy (v : JsValue) : bool :=
  match v with
  | JsUndefined | JsNull => false
  | JsBool b => b
  | JsNumber z => negb (z =? 0)%Z
  | JsString s => negb (String.eqb s "")
  end.

(** [ToString], as used by a template literal's [${...}]. *)
Definition toString (v : JsValue) : string :=
  match v with
  | JsUndefined => "undefined"
  | JsNull => "null"
  | JsBool true => "true"
  | JsBool false => "false"
  | JsNumber z => pretty z
  | JsString s => s
  end.

(** [v > n] for a numeric or absent [v] ([undefined > n] is false). *)
Definition js_gt (v : JsValue) (n : Z) : bool :=
  match v with
  | JsNumber z => (n <? z)%Z
  | _ => false
  end.

(** An object used as a map: own properties in enumeration order. *)
Abbreviation JsObject A := (list (string * A)).

Definition Object_entries {A} (o : JsObject A) : list (string * A) := o.
Definition Object_keys {A} (o : JsObject A) : list string := fst <$> o.
Definition Object_values {A} (o : JsObject A) : list A := snd <$> o.

(** [Array.prototype.join] on an array of strings. *)
Definition join (sep : string) (l : list string) : string := String.concat sep l.

(** [Array.prototype.forEach] with the [(element, index)] callback, the
    arrays the callback pushes to being threaded as the state [s]. *)
Fixpoint forEach_from {A St : Type} (f : A → nat → St → St) (index : nat)
    (l : list A) (s : St) : St :=
  match l with
  | [] => s
  | x :: l' => forEach_from f (S index) l' (f x index s)
  end.

Definition forEach {A St : Type} (f : A → nat → St → St) (l : list A) (s : St) : St :=
  forEach_from f 0 l s.

(** ** Rows, statements, results and errors *)

Abbreviation Row := (list (string * JsValue)).

(** What [pool.query(text, values)] receives.  [qvalues = None] is a call
    with the text alone. *)
Record Query : Type := mkQuery {
  qtext : string;
  qvalues : option (list JsValue)
}.

(** The two fields of a [pg] result the helpers read. *)
Record QueryResult : Type := mkResult {
  rows : list Row;
  rowCount : nat
}.

(** An error object: its [message], and the [code] a database error
    carries and a plain [new Error(message)] lacks. *)
Record JsError : Type := mkError {
  message : string;
  code : option string
}.

Definition new_Error (msg : string) : JsError :=
  {| message := msg; code := None |}.

(** What the helpers resolve to. *)
Inductive JsReturn : Type :=
| RetUndefined
| RetNull
| RetCount (n : nat)
| RetRow (r : Row)
| RetRows (rs : list Row).

Inductive Completion (A : Type) : Type :=
| Normal (a : A)
| Thrown (e : JsError).
Arguments Normal {A} a.
Arguments Thrown {A} e.

(** ** The pool and the world *)

Record Pool (Store : Type) : Type := mkPool {
  exec : Query → Store → (JsError + QueryResult) * Store
}.
Arguments exec {Store} _ _ _.

Record World (Store : Type) : Type := mkWorld {
  store : Store;
  issued : list Query;
  console : list (string * JsError)
}.
Arguments mkWorld {Store} _ _ _.
Arguments store {Store} _.
Arguments issued {Store} _.
Arguments console {Store} _.

Definition Async (Store A : Type) : Type :=
  World Store → Completion A * World Store.

Section Effects.
Context {Store : Type}.

Definition resolve {A} (a : A) : Async Store A := λ w, (Normal a, w).

Definition throw {A} (e : JsError) : Async Store A := λ w, (Thrown e, w).

Definition await {A B} (m : Async Store A) (k : A → Async Store B) : Async Store B :=
  λ w, match m w with
       | (Normal a, w') => k a w'
       | (Thrown e, w') => (Thrown e, w')
       end.

Definition try_catch {A} (body : Async Store A) (handler : JsError → Async Store A)
  : Async Store A :=
  λ w, match body w with
       | (Normal a, w') => (Normal a, w')
       | (Thrown e, w') => handler e w'
       end.

(** [pool.query(text, values)]: the statement is recorded, the store
    moves on, and the promise settles with the pool's outcome. *)
Definition pool_query (pool : Pool Store) (q : Query) : Async Store QueryResult :=
  λ w, let '(outcome, s') := exec pool q (store w) in
       let w' := mkWorld s' (issued w ++ [q]) (console w) in
       match outcome with
       | inr result => (Normal result, w')
       | inl error => (Thrown error, w')
       end.

(** The world after [pool.query(q)] was awaited in [w]. *)
Definition after_query (pool : Pool Store) (q : Query) (w : World Store) : World Store :=
  mkWorld (exec pool q (store w)).2 (issued w ++ [q]) (console w).

Definition console_error (label : string) (error : JsError) : Async Store unit :=
  λ w, (Normal tt, mkWorld (store w) (issued w) (console w ++ [(label, error)])).

Definition when (b : bool) (m : Async Store unit) : Async Store unit :=
  if b then m else resolve tt.
End Effects.

Notation "'let_await' x ':=' m 'in' k" := (await m (λ x, k))
  (at level 10, x name, m at level 100, k at level 200, only parsing).
Notation "'do_await' m 'in' k" := (await m (λ _, k))
  (at level 10, m at level 100, k at level 200, only parsing).

(** ** Options *)

(** [options.fields]: one column as a string, or an array of columns. *)
Inductive FieldsOption : Type :=
| FieldsString (s : string)
| FieldsArray (l : list string).

(** The options of [getEntry]; [None] is a property that was not supplied. *)
Record GetEntryOptions : Type := mkGetEntryOptions {
  fields : option FieldsOption;
  sort : option (JsObject string);
  maxEntries : option Z
}.

(** [options = {}]. *)
Definition no_options : GetEntryOptions :=
  {| fields := None; sort := None; maxEntries := None |}.

(** The options of [deleteEntry]. *)
Record DeleteOptions : Type := mkDeleteOptions {
  returning : option bool
}.

Definition option_value (o : option Z) : JsValue :=
  match o with
  | Some z => JsNumber z
  | None => JsUndefined
  end.

Definition option_flag (o : option bool) : JsValue :=
  match o with
  | Some b => JsBool b
  | None => JsUndefined
  end.

(** ** Building the statements *)

(** The loop shared by [getEntry] and [deleteEntry]:
    [Object.entries(conditions).forEach(([column, value], index) => {
       whereClauses.push(`${column} = $${index + 1}`); whereParams.push(value) })],
    giving [(whereClauses, whereParams)]. *)
Definition where_arrays (conditions : JsObject JsValue) : list string * list JsValue :=
  forEach
    (λ '(column, value) index '(whereClauses, whereParams),
       (whereClauses ++ [column +:+ " = $" +:+ pretty (index + 1)],
        whereParams ++ [value]))
    (Object_entries conditions) ([], []).

Definition getEntry_fields (options : GetEntryOptions) : string :=
  match fields options with
  | Some (FieldsString s) =>
      if negb (String.eqb s "") && bool_decide (0 < String.length s) then s else "*"
  | Some (FieldsArray l) =>
      if bool_decide (0 < length l) then join ", " l else "*"
  | None => "*"
  end.

Definition getEntry_whereClause (conditions : JsObject JsValue) : string :=
  let whereClauses := (where_arrays conditions).1 in
  if bool_decide (0 < length whereClauses)
  then "WHERE " +:+ join " AND " whereClauses
  else "".

Definition getEntry_orderByClause (options : GetEntryOptions) : string :=
  match sort options with
  | Some sort_map =>
      let sortItems :=
        join ", " ((λ '(field, direction), field +:+ " " +:+ direction)
                     <$> Object_entries sort_map) in
      if truthy (JsString sortItems) then "ORDER BY " +:+ sortItems else ""
  | None => ""
  end.

(** [options.maxEntries ? options.maxEntries : 1] *)
Definition getEntry_limit (options : GetEntryOptions) : JsValue :=
  if truthy (option_value (maxEntries options))
  then option_value (maxEntries options)
  else JsNumber 1.

Definition getEntry_query (tableName : string) (conditions : JsObject JsValue)
    (options : GetEntryOptions) : Query :=
  {| qtext := "SELECT " +:+ getEntry_fields options +:+ " FROM " +:+ tableName
              +:+ " " +:+ getEntry_whereClause conditions
              +:+ " " +:+ getEntry_orderByClause options
              +:+ " LIMIT " +:+ toString (getEntry_limit options);
     qvalues := Some (where_arrays conditions).2 |}.

Definition deleteEntry_query (tableName : string) (conditions : JsObject JsValue)
    (options : DeleteOptions) : Query :=
  let returningClause :=
    if truthy (option_flag (returning options)) then "RETURNING *" else "" in
  {| qtext := "DELETE FROM " +:+ tableName +:+ " WHERE "
              +:+ join " AND " (where_arrays conditions).1
              +:+ " " +:+ returningClause;
     qvalues := Some (where_arrays conditions).2 |}.

Definition updateRecords_setClause (updates : JsObject JsValue) : string :=
  join ", " (imap (λ index key, key +:+ " = $" +:+ pretty (index + 1))
                  (Object_keys updates)).

Definition updateRecords_query (tableName : string) (conditions updates : JsObject JsValue)
    : Query :=
  let setClause := updateRecords_setClause updates in
  let whereClause := "" in
  let values := Object_values updates in
  let '(whereClause, values) :=
    if bool_decide (0 < length (Object_keys conditions))
    then ("WHERE " +:+
            join " AND "
              (imap (λ index key,
                       key +:+ " = $" +:+ pretty (index + 1 + length (Object_keys updates)))
                    (Object_keys conditions)),
          values ++ Object_values conditions)
    else (whereClause, values) in
  {| qtext := "UPDATE " +:+ tableName +:+ " SET " +:+ setClause
              +:+ " " +:+ whereClause +:+ " RETURNING * ";
     qvalues := Some values |}.

Definition addRow_query (tableName : string) (data : JsObject JsValue) : Query :=
  let columns := join ", " (Object_keys data) in
  let values :=
    join ", " ((λ value, "'" +:+ toString value +:+ "'") <$> Object_values data) in
  {| qtext := "INSERT INTO " +:+ tableName +:+ " (" +:+ columns
              +:+ ") VALUES (" +:+ values +:+ ") RETURNING *";
     qvalues := None |}.

Definition checkDatabaseExists_query (databaseName : string) : Query :=
  {| qtext := "SELECT 1 FROM pg_database WHERE datname = $1";
     qvalues := Some [JsString databaseName] |}.

Definition checkTableExists_query (tableName schemaName : string) : Query :=
  {| qtext := "SELECT 1 FROM information_schema.tables WHERE table_schema = $1 AND table_name = $2";
     qvalues := Some [JsString schemaName; JsString tableName] |}.

Definition createTable_query (tableName columnsDefinition : string) : Query :=
  {| qtext := "CREATE TABLE IF NOT EXISTS " +:+ tableName +:+ " (" +:+ columnsDefinition +:+ ")";
     qvalues := None |}.

Definition getAllFromTable_query (tableName : string) : Query :=
  {| qtext := "SELECT * FROM " +:+ tableName; qvalues := None |}.

(** [rows[0]]: the first element, [undefined] past the end. *)
Definition first_row (rs : list Row) : JsReturn :=
  match rs !! 0 with
  | Some r => RetRow r
  | None => RetUndefined
  end.

(** ** The operations *)

Section Operations.
Context {Store : Type}.
Implicit Types (pool : Pool Store) (w : World Store).

Definition checkDatabaseExists (databaseName : string) pool (verbose : bool)
    : Async Store bool :=
  try_catch
    (let_await result := pool_query pool (checkDatabaseExists_query databaseName) in
     resolve (bool_decide (0 < rowCount result)))
    (λ error,
       do_await when verbose (console_error "Error checking if database exists:" error) in
       resolve false).

Definition checkTableExists (tableName : string) pool (schemaName : string)
    (verbose : bool) : Async Store bool :=
  try_catch
    (let_await result := pool_query pool (checkTableExists_query tableName schemaName) in
     resolve (bool_decide (0 < rowCount result)))
    (λ error,
       do_await when verbose (console_error "Error checking if table exists:" error) in
       throw error).

Definition createTable (tableName : string) pool (columnsDefinition : string)
    : Async Store unit :=
  try_catch
    (let_await _ := pool_query pool (createTable_query tableName columnsDefinition) in
     resolve tt)
    (λ error,
       do_await console_error ("Error creating table " +:+ tableName +:+ ":") error in
       throw error).

Definition addRow (tableName : string) (data : JsObject JsValue) pool
    : Async Store JsReturn :=
  try_catch
    (let query := addRow_query tableName data in
     let_await result := pool_query pool query in
     resolve (first_row (rows result)))
    (λ error,
       do_await console_error ("Error adding row to table " +:+ tableName +:+ ":") error in
       throw error).

Definition getAllFromTable (tableName : string) pool : Async Store JsReturn :=
  try_catch
    (let query := getAllFromTable_query tableName in
     let_await result := pool_query pool query in
     resolve (RetRows (rows result)))
    (λ error,
       do_await console_error "Error fetching data:" error in
       throw error).

Definition getEntry (tableName : string) (conditions : JsObject JsValue) pool
    (options : GetEntryOptions) : Async Store JsReturn :=
  let query := getEntry_query tableName conditions options in
  try_catch
    (let_await result := pool_query pool query in
     if truthy (option_value (maxEntries options))
        && js_gt (option_value (maxEntries options)) 1
     then resolve (if bool_decide (0 < length (rows result))
                   then RetRows (rows result) else RetNull)
     else resolve (if bool_decide (0 < length (rows result))
                   then first_row (rows result) else RetNull))
    (λ error,
       throw (new_Error ("Failed to retrieve entry from " +:+ tableName
                         +:+ ": " +:+ message error))).

Definition deleteEntry (tableName : string) (conditions : JsObject JsValue) pool
    (options : DeleteOptions) : Async Store JsReturn :=
  let whereClauses := (where_arrays conditions).1 in
  if bool_decide (length whereClauses = 0)
  then throw (new_Error "At least one condition is required for safety")
  else
    let query := deleteEntry_query tableName conditions options in
    try_catch
      (let_await result := pool_query pool query in
       resolve (if truthy (option_flag (returning options))
                then match rows result !! 0 with
                     | Some r => RetRow r
                     | None => RetNull
                     end
                else RetCount (rowCount result)))
      (λ error,
         throw (new_Error ("Failed to delete entry from " +:+ tableName
                           +:+ ": " +:+ message error))).

Definition updateRecords (tableName : string) pool (conditions updates : JsObject JsValue)
    : Async Store JsReturn :=
  try_catch
    (let query := updateRecords_query tableName conditions updates in
     let_await result := pool_query pool query in
     resolve (RetRows (rows result)))
    (λ error,
       throw (new_Error ("Failed to update records: " +:+ message error))).
End Operations.

(** ** The second copy of [dbUtils.js]

    The file holds a second copy of the helpers, the one with named
    exports.  Its [getEntry] has no [maxEntries] (the statement always ends
    in [LIMIT 1] and the first row or [null] is returned), and its
    [updateRecords] differs from the one above in one step: an empty
    [result.rows] is turned into an error inside the [try] block, which
    the [catch] then wraps like any other. *)
Module NamedExports.
Section Operations.
Context {Store : Type}.

Definition updateRecords (tableName : string) (pool : Pool Store)
    (conditions updates : JsObject JsValue) : Async Store JsReturn :=
  try_catch
    (let query := updateRecords_query tableName conditions updates in
     let_await result := pool_query pool query in
     if bool_decide (length (rows result) = 0)
     then throw (new_Error "No records matched the specified conditions")
     else resolve (RetRows (rows result)))
    (λ error,
       throw (new_Error ("Failed to update records: " +:+ message error))).

(** [getEntry] of this copy reads [fields] and [sort] only. *)
Definition getEntry_query (tableName : string) (conditions : JsObject JsValue)
    (options : GetEntryOptions) : Query :=
  {| qtext := "SELECT " +:+ getEntry_fields options +:+ " FROM " +:+ tableName
              +:+ " " +:+ getEntry_whereClause conditions
              +:+ " " +:+ getEntry_orderByClause options
              +:+ " LIMIT 1";
     qvalues := Some (where_arrays conditions).2 |}.

Definition getEntry (tableName : string) (conditions : JsObject JsValue)
    (pool : Pool Store) (options : GetEntryOptions) : Async Store JsReturn :=
  let query := getEntry_query tableName conditions options in
  try_catch
    (let_await result := pool_query pool query in
     resolve (if bool_decide (0 < length (rows result))
              then first_row (rows result) else RetNull))
    (λ error,
       throw (new_Error ("Failed to retrieve entry from " +:+ tableName
                         +:+ ": " +:+ message error))).
End Operations.
End NamedExports.

(** ** The contract in the words of the specification

    These follow the prose of the specification, not the code; the
    theorems below compare them with the definitions above. *)

(** The conjunction [col1 = $1 AND col2 = $2 …]. *)
Definition spec_conditions (conditions : JsObject JsValue) : string :=
  join " AND " (imap (λ i entry, entry.1 +:+ " = $" +:+ pretty (S i)) conditions).

(** The WHERE fragment: empty for the empty condition map. *)
Definition spec_whereClause (conditions : JsObject JsValue) : string :=
  match conditions with
  | [] => ""
  | _ :: _ => "WHERE " +:+ spec_conditions conditions
  end.

(** The ORDER BY fragment: [ORDER BY col1 dir1, col2 dir2 …], omitted for an
    empty or absent sort map. *)
Definition spec_orderByClause (sort_option : option (JsObject string)) : string :=
  match sort_option with
  | None | Some [] => ""
  | Some sort_map =>
      "ORDER BY " +:+ join ", " ((λ entry, entry.1 +:+ " " +:+ entry.2) <$> sort_map)
  end.

(** The limit: [maxEntries] if provided and greater than 0, else 1. *)
Definition spec_limit (maxEntries_option : option Z) : Z :=
  match maxEntries_option with
  | Some n => if bool_decide (0 < n)%Z then n else 1%Z
  | None => 1%Z
  end.

(** The limit the statement carries: [maxEntries] if provided and not 0,
    else 1. *)
Definition truthy_limit (maxEntries_option : option Z) : Z :=
  match maxEntries_option with
  | Some n => if bool_decide (n = 0)%Z then 1%Z else n
  | None => 1%Z
  end.

Definition first_or_null (rs : list Row) : JsReturn :=
  match rs with
  | [] => RetNull
  | r :: _ => RetRow r
  end.

Definition all_or_null (rs : list Row) : JsReturn :=
  match rs with
  | [] => RetNull
  | _ :: _ => RetRows rs
  end.

(** Result shaping: the first row or null if [maxEntries] was not supplied
    or is at most 1, the whole array or null if it is greater than 1. *)
Definition spec_shape (maxEntries_option : option Z) (rs : list Row) : JsReturn :=
  match maxEntries_option with
  | None => first_or_null rs
  | Some n => if bool_decide (n ≤ 1)%Z then first_or_null rs else all_or_null rs
  end.

(** [contains needle s]: [needle] occurs in [s]. *)
Fixpoint contains (needle s : string) : bool :=
  String.prefix needle s ||
  match s with
  | EmptyString => false
  | String _ s' => contains needle s'
  end.

(** ** Sample pools and data *)

(** A pool without a store of its own, answering by a fixed table. *)
Definition scripted (answer : Query → JsError + QueryResult) : Pool unit :=
  {| exec := λ q s, (answer q, s) |}.

Definition fresh_world : World unit := mkWorld tt [] [].

Definition alice : Row := [("id", JsNumber 1); ("name", JsString "Alice")].
Definition bob : Row := [("id", JsNumber 2); ("name", JsString "Bob")].

Definition pool_of_rows (rs : list Row) : Pool unit :=
  scripted (λ _, inr {| rows := rs; rowCount := length rs |}).

Definition relation_missing : JsError :=
  {| message := "relation does not exist"; code := Some "42P01" |}.

Definition failing_pool : Pool unit := scripted (λ _, inl relation_missing).

(** ** The helpers no statement above goes through *)

Definition testDatabaseConnection_query : Query :=
  {| qtext := "SELECT NOW()"; qvalues := None |}.

Definition getTableAsJson_query (tableName : string) : Query :=
  {| qtext := "SELECT * FROM " +:+ tableName; qvalues := None |}.

Section Probes.
Context {Store : Type}.
Implicit Types (pool : Pool Store) (w : World Store).

Definition testDatabaseConnection pool (verbose : bool) : Async Store bool :=
  try_catch
    (let_await _ := pool_query pool testDatabaseConnection_query in
     resolve true)
    (λ error,
       do_await when verbose (console_error "Database connection failed:" error) in
       resolve false).

Definition getTableAsJson (tableName : string) pool : Async Store JsReturn :=
  try_catch
    (let_await result := pool_query pool (getTableAsJson_query tableName) in
     resolve (RetRows (rows result)))
    (λ error,
       do_await console_error "Error retrieving table data:" error in
       throw error).
End Probes.

(** ** [createDatabase]

    [createDatabase] makes a pool of its own, so it runs against the [pg]
    driver rather than against a pool it is given.  The driver is any
    function from the calls made so far to the failure, if any, of the next
    call; the trace records the calls and the console lines in order. *)

(** [dbInfo], and the configuration handed to [new Pool]. *)
Record DbInfo : Type := mkDbInfo {
  host : JsValue;
  port : JsValue;
  user : JsValue;
  password : JsValue
}.

Record PoolConfig : Type := mkPoolConfig {
  config_host : JsValue;
  config_port : JsValue;
  config_user : JsValue;
  config_password : JsValue;
  config_database : string
}.

Inductive AdminEvent : Type :=
| NewPool (config : PoolConfig)
| PoolQuery (text : string)
| PoolEnd
| ConsoleError (label : string) (error : option JsError).

Record PgDriver : Type := mkPgDriver {
  new_Pool_fails : PoolConfig → list AdminEvent → option JsError;
  query_fails : string → list AdminEvent → option JsError;
  end_fails : list AdminEvent → option JsError
}.

Definition Admin (A : Type) : Type :=
  list AdminEvent → Completion A * list AdminEvent.

Definition admin_resolve {A} (a : A) : Admin A := λ trace, (Normal a, trace).

Definition admin_await {A B} (m : Admin A) (k : A → Admin B) : Admin B :=
  λ trace, match m trace with
           | (Normal a, trace') => k a trace'
           | (Thrown e, trace') => (Thrown e, trace')
           end.

Definition admin_try {A} (body : Admin A) (handler : JsError → Admin A) : Admin A :=
  λ trace, match body trace with
           | (Normal a, trace') => (Normal a, trace')
           | (Thrown e, trace') => handler e trace'
           end.

(** A call to the driver: recorded, then settled as the driver decides. *)
Definition admin_call (event : AdminEvent) (fails : list AdminEvent → option JsError)
    : Admin unit :=
  λ trace, match fails trace with
           | None => (Normal tt, trace ++ [event])
           | Some error => (Thrown error, trace ++ [event])
           end.

Definition admin_console (verbose : bool) (label : string) (error : option JsError)
    : Admin unit :=
  λ trace, (Normal tt, if verbose then trace ++ [ConsoleError label error] else trace).

(** The quotation mark around the name in the CREATE DATABASE statement. *)
Definition double_quote : string := String (Ascii.ascii_of_nat 34) EmptyString.

Definition createDatabase_config (dbInfo : DbInfo) : PoolConfig :=
  {| config_host := host dbInfo;
     config_port := port dbInfo;
     config_user := user dbInfo;
     config_password := password dbInfo;
     config_database := "postgres" |}.

Definition createDatabase_text (dbName : string) : string :=
  "CREATE DATABASE " +:+ double_quote +:+ dbName +:+ double_quote.

Definition createDatabase (driver : PgDriver) (dbInfo : DbInfo) (dbName : string)
    (verbose : bool) : Admin bool :=
  admin_try
    (admin_await
       (admin_call (NewPool (createDatabase_config dbInfo))
                   (new_Pool_fails driver (createDatabase_config dbInfo)))
       (λ _,
          admin_try
            (admin_await
               (admin_call (PoolQuery (createDatabase_text dbName))
                           (query_fails driver (createDatabase_text dbName)))
               (λ _, admin_await (admin_call PoolEnd (end_fails driver))
                       (λ _, admin_resolve true)))
            (λ error,
               admin_await (admin_console verbose "Database creation failed:" (Some error))
                 (λ _, admin_await (admin_call PoolEnd (end_fails driver))
                         (λ _, admin_resolve false)))))
    (λ error,
       admin_await
         (admin_console verbose
            "Could not connect to default database postgres. Create the database manually."
            None)
         (λ _, admin_resolve false)).

(** How often the pool was ended, and which statements were sent. *)
Definition count_ends (trace : list AdminEvent) : nat :=
  length (omap (λ event, match event with PoolEnd => Some tt | _ => None end) trace).

Definition statements_of (trace : list AdminEvent) : list string :=
  omap (λ event, match event with PoolQuery text => Some text | _ => None end) trace.

Definition console_lines_of (trace : list AdminEvent) : list (string * option JsError) :=
  omap (λ event, match event with
                 | ConsoleError label error => Some (label, error)
                 | _ => None
                 end) trace.

(** The answers of the driver that decide a call started on [trace]: to
    making the pool, to the statement, and to the first [pool.end()]. *)
Definition made_fails (driver : PgDriver) (dbInfo : DbInfo) (trace : list AdminEvent)
    : option JsError :=
  new_Pool_fails driver (createDatabase_config dbInfo) trace.

Definition sent_fails (driver : PgDriver) (dbInfo : DbInfo) (dbName : string)
    (trace : list AdminEvent) : option JsError :=
  query_fails driver (createDatabase_text dbName)
    (trace ++ [NewPool (createDatabase_config dbInfo)]).

Definition ended_fails (driver : PgDriver) (dbInfo : DbInfo) (dbName : string)
    (trace : list AdminEvent) : option JsError :=
  end_fails driver
    ((trace ++ [NewPool (createDatabase_config dbInfo)])
       ++ [PoolQuery (createDatabase_text dbName)]).

(** ** [config/db.js]

    The body of the module once the pool is made: the two checks are
    awaited one after the other, then the outcome is reported.  The lines
    of [console.log] are kept beside the world; [db_name] is the
    environment variable of that name. *)
Definition db_checks {Store : Type} (db_name : string) (dbPool : Pool Store)
    : World Store → Completion unit * (World Store * list string) :=
  λ w,
    match testDatabaseConnection dbPool false w with
    | (Thrown e, w1) => (Thrown e, (w1, []))
    | (Normal dbConnection_check, w1) =>
        match checkDatabaseExists db_name dbPool false w1 with
        | (Thrown e, w2) => (Thrown e, (w2, []))
        | (Normal dbExistence_check, w2) =>
            if dbConnection_check && dbExistence_check
            then (Normal tt, (w2, ["Database connection successful"]))
            else if negb dbConnection_check
            then (Thrown (new_Error "Database connection failed"),
                  (w2, ["Database connection failed"]))
            else if negb dbExistence_check
            then (Thrown (new_Error ("Database " +:+ db_name +:+ " doesn't exist")),
                  (w2, ["Database " +:+ db_name +:+ " doesn't exist"]))
            else (Normal tt, (w2, []))
        end
    end.

(** ** What an operation leaves behind *)

(** The console line a failed statement gives rise to. *)
Definition failure_line (label : string) (outcome : JsError + QueryResult)
    : list (string * JsError) :=
  match outcome with
  | inl error => [(label, error)]
  | inr _ => []
  end.

(** The world after one statement [q] and the console lines [lines]. *)
Definition world_after {Store : Type} (pool : Pool Store) (q : Query)
    (lines : list (string * JsError)) (w : World Store) : World Store :=
  mkWorld (exec pool q (store w)).2 (issued w ++ [q]) (console w ++ lines).

(** ** More sample data *)

Definition healthy_driver : PgDriver :=
  {| new_Pool_fails := λ _ _, None;
     query_fails := λ _ _, None;
     end_fails := λ _, None |}.

(** A driver whose pools cannot be ended, as after a lost connection. *)
Definition stuck_driver : PgDriver :=
  {| new_Pool_fails := λ _ _, None;
     query_fails := λ _ _, None;
     end_fails := λ _, Some relation_missing |}.

Definition local_admin : DbInfo :=
  {| host := JsString "localhost"; port := JsNumber 5432;
     user := JsString "postgres"; password := JsString "secret" |}.

(** ** Proof steps *)

(** Runs an operation on both answers the pool can give to [q] in [w]. *)
Ltac run_pool pool q w :=
  unfold try_catch, await, pool_query, resolve, throw, console_error, when;
  destruct (exec pool q (store w)) as [[?error|?result] ?s']; simpl.

(** Runs [createDatabase] on every answer the driver can give. *)
Ltac run_driver driver :=
  unfold made_fails, sent_fails, ended_fails, createDatabase, admin_try, admin_await,
    admin_call, admin_console, admin_resolve;
  repeat match goal with
         | |- context [new_Pool_fails driver ?config ?trace] =>
             destruct (new_Pool_fails driver config trace) eqn:?; simpl
         | |- context [query_fails driver ?text ?trace] =>
             destruct (query_fails driver text trace) eqn:?; simpl
         | |- context [end_fails driver ?trace] =>
             destruct (end_fails driver trace) eqn:?; simpl
         end.

(** * Properties *)

(** ** The arrays built by the condition loop *)

Lemma forEach_from_where (conditions : JsObject JsValue) :
  ∀ (index : nat) (whereClauses : list string) (whereParams : list JsValue),
    forEach_from
      (λ '(column, value) index '(whereClauses, whereParams),
         (whereClauses ++ [column +:+ " = $" +:+ pretty (index + 1)],
          whereParams ++ [value]))
      index conditions (whereClauses, whereParams)
    = (whereClauses
         ++ imap (λ i entry, entry.1 +:+ " = $" +:+ pretty (index + i + 1)) conditions,
       whereParams ++ (snd <$> conditions)).
Proof.
  induction conditions as [|[column value] rest IH]; intros index cls prs; simpl.
  - by rewrite !app_nil_r.
  - rewrite IH, <- !(assoc_L (++)). simpl. f_equal. f_equal.
    rewrite Nat.add_0_r. f_equal.
    apply imap_ext. intros i entry _. simpl.
    do 3 f_equal. lia.
Qed.

Lemma where_arrays_clauses (conditions : JsObject JsValue) :
  (where_arrays conditions).1
  = imap (λ i entry, entry.1 +:+ " = $" +:+ pretty (S i)) conditions.
Proof.
  unfold where_arrays, forEach, Object_entries.
  rewrite forEach_from_where. simpl.
  apply imap_ext. intros i entry _. simpl. by rewrite Nat.add_1_r.
Qed.

Lemma where_arrays_params (conditions : JsObject JsValue) :
  (where_arrays conditions).2 = Object_values conditions.
Proof.
  unfold where_arrays, forEach, Object_entries. by rewrite forEach_from_where.
Qed.

Lemma where_arrays_length (conditions : JsObject JsValue) :
  length (where_arrays conditions).1 = length conditions.
Proof. by rewrite where_arrays_clauses, length_imap. Qed.

(** ** Strings *)

Lemma append_empty_inv (s t : string) : s +:+ t = "" → s = "" ∧ t = "".
Proof. destruct s; simpl; [done | discriminate]. Qed.

Lemma join_cons_nonempty (sep x : string) (l : list string) :
  x ≠ "" → join sep (x :: l) ≠ "".
Proof.
  intros Hx Hjoin. unfold join in Hjoin. simpl in Hjoin.
  destruct l as [|y l]; [done |].
  by apply append_empty_inv in Hjoin as [? _].
Qed.

Lemma truthy_string (s : string) : truthy (JsString s) = bool_decide (s ≠ "").
Proof.
  unfold truthy. case_bool_decide as Hs.
  - by apply negb_true_iff, String.eqb_neq.
  - apply negb_false_iff, String.eqb_eq. by destruct (decide (s = "")).
Qed.

(** ** Running one statement *)

Section Running.
Context {Store : Type}.
Implicit Types (pool : Pool Store) (w : World Store) (q : Query).

Lemma pool_query_ok pool q w result :
  (exec pool q (store w)).1 = inr result →
  pool_query pool q w = (Normal result, after_query pool q w).
Proof.
  unfold pool_query, after_query. destruct (exec pool q (store w)) as [outcome s'].
  simpl. by intros ->.
Qed.

Lemma pool_query_fails pool q w error :
  (exec pool q (store w)).1 = inl error →
  pool_query pool q w = (Thrown error, after_query pool q w).
Proof.
  unfold pool_query, after_query. destruct (exec pool q (store w)) as [outcome s'].
  simpl. by intros ->.
Qed.

Lemma pool_query_issued pool q w :
  issued (pool_query pool q w).2 = issued w ++ [q].
Proof.
  unfold pool_query. destruct (exec pool q (store w)) as [[error|result] s']; done.
Qed.
End Running.

(** ** The fragments of [getEntry] against the specification *)

Lemma getEntry_whereClause_spec (conditions : JsObject JsValue) :
  getEntry_whereClause conditions = spec_whereClause conditions.
Proof.
  unfold getEntry_whereClause, spec_whereClause, spec_conditions.
  rewrite where_arrays_length, where_arrays_clauses.
  destruct conditions as [|entry rest]; [done |].
  rewrite bool_decide_eq_true_2; [done | simpl; lia].
Qed.

Lemma sort_item_nonempty (field direction : string) : field +:+ " " +:+ direction ≠ "".
Proof. intros H. by apply append_empty_inv in H as [_ ?]. Qed.

Lemma getEntry_orderByClause_spec (options : GetEntryOptions) :
  getEntry_orderByClause options = spec_orderByClause (sort options).
Proof.
  unfold getEntry_orderByClause, spec_orderByClause, Object_entries.
  destruct (sort options) as [[|[field direction] rest]|]; [done | | done].
  rewrite truthy_string, bool_decide_eq_true_2.
  - f_equal. f_equal. apply list_fmap_ext. by intros i [??] _.
  - rewrite fmap_cons. apply join_cons_nonempty, sort_item_nonempty.
Qed.

Lemma getEntry_limit_truthy (options : GetEntryOptions) :
  getEntry_limit options = JsNumber (truthy_limit (maxEntries options)).
Proof.
  unfold getEntry_limit, truthy_limit.
  destruct (maxEntries options) as [n|]; simpl; [| done].
  case_bool_decide as Hn.
  - by rewrite (proj2 (Z.eqb_eq n 0) Hn).
  - by rewrite (proj2 (Z.eqb_neq n 0) Hn).
Qed.

(** Every operation issues its statement once, whatever the pool answers. *)
Section Statements.
Context {Store : Type}.
Implicit Types (pool : Pool Store) (w : World Store).
Implicit Types (conditions updates data : JsObject JsValue).

Lemma getEntry_issued tableName conditions pool options w :
  issued (getEntry tableName conditions pool options w).2
  = issued w ++ [getEntry_query tableName conditions options].
Proof.
  unfold getEntry.
  run_pool pool (getEntry_query tableName conditions options) w; [done |].
  by destruct (_ && _).
Qed.

Lemma updateRecords_issued tableName pool conditions updates w :
  issued (updateRecords tableName pool conditions updates w).2
  = issued w ++ [updateRecords_query tableName conditions updates].
Proof.
  unfold updateRecords.
  by run_pool pool (updateRecords_query tableName conditions updates) w.
Qed.

Lemma addRow_issued tableName data pool w :
  issued (addRow tableName data pool w).2 = issued w ++ [addRow_query tableName data].
Proof. unfold addRow. by run_pool pool (addRow_query tableName data) w. Qed.

Lemma deleteEntry_issued tableName conditions pool options w :
  conditions ≠ [] →
  issued (deleteEntry tableName conditions pool options w).2
  = issued w ++ [deleteEntry_query tableName conditions options].
Proof.
  intros Hne. unfold deleteEntry. rewrite where_arrays_length.
  rewrite bool_decide_eq_false_2 by (by destruct conditions).
  by run_pool pool (deleteEntry_query tableName conditions options) w.
Qed.
End Statements.

(** ** C1: [deleteEntry] *)

(** C1.  For a condition map with at least one entry, [deleteEntry] issues
    exactly one statement, a DELETE whose WHERE conjunction numbers the
    conditions [$1, $2, …] in map-iteration order and whose parameter list
    is the condition values in that order.  For the empty condition map it
    throws the error "At least one condition is required for safety" and
    leaves the world as it was: no statement issued, store untouched. *)
Theorem deleteEntry_binds_or_refuses {Store : Type} (tableName : string)
    (conditions : JsObject JsValue) (pool : Pool Store) (options : DeleteOptions)
    (w : World Store) :
  (conditions = [] →
     deleteEntry tableName conditions pool options w
     = (Thrown (new_Error "At least one condition is required for safety"), w))
  ∧ (conditions ≠ [] →
     issued (deleteEntry tableName conditions pool options w).2
     = issued w ++
       [ {| qtext := "DELETE FROM " +:+ tableName +:+ " WHERE "
                     +:+ spec_conditions conditions +:+ " "
                     +:+ (if returning options is Some true then "RETURNING *" else "");
            qvalues := Some (Object_values conditions) |} ]).
Proof.
  split.
  - by intros ->.
  - intros Hne. rewrite deleteEntry_issued by done.
    unfold deleteEntry_query, spec_conditions.
    rewrite where_arrays_clauses, where_arrays_params.
    by destruct (returning options) as [[|]|].
Qed.

Lemma deleteEntry_binds_or_refuses_witness :
  deleteEntry "users" [] (pool_of_rows [alice]) (mkDeleteOptions None) fresh_world
  = (Thrown (new_Error "At least one condition is required for safety"), fresh_world)
  ∧ issued (deleteEntry "users" [("id", JsNumber 1); ("name", JsString "Alice")]
              (pool_of_rows [alice]) (mkDeleteOptions (Some true)) fresh_world).2
    = [ {| qtext := "DELETE FROM users WHERE id = $1 AND name = $2 RETURNING *";
           qvalues := Some [JsNumber 1; JsString "Alice"] |} ].
Proof.
  split.
  - apply (deleteEntry_binds_or_refuses "users" [] (pool_of_rows [alice])
             (mkDeleteOptions None) fresh_world). reflexivity.
  - apply (deleteEntry_binds_or_refuses "users"
             [("id", JsNumber 1); ("name", JsString "Alice")] (pool_of_rows [alice])
             (mkDeleteOptions (Some true)) fresh_world). discriminate.
Defined.

(** ** C7: the WHERE and ORDER BY fragments of [getEntry] *)

(** C7.  For every condition map and every sort option of [getEntry], the
    WHERE fragment is the conjunction [col1 = $1 AND col2 = $2 …] over the
    condition map in iteration order (behind the keyword WHERE) and the
    empty string for the empty map, the parameter list is the condition
    values in the same order, and the ORDER BY fragment is
    [ORDER BY col1 dir1, col2 dir2 …], omitted when the sort map is empty
    or absent; these are the fragments of the statement that is issued. *)
Theorem getEntry_where_and_order_by {Store : Type} (tableName : string)
    (conditions : JsObject JsValue) (pool : Pool Store) (options : GetEntryOptions)
    (w : World Store) :
  getEntry_whereClause conditions = spec_whereClause conditions
  ∧ getEntry_orderByClause options = spec_orderByClause (sort options)
  ∧ issued (getEntry tableName conditions pool options w).2
    = issued w ++
      [ {| qtext := "SELECT " +:+ getEntry_fields options +:+ " FROM " +:+ tableName
                    +:+ " " +:+ spec_whereClause conditions
                    +:+ " " +:+ spec_orderByClause (sort options)
                    +:+ " LIMIT " +:+ toString (getEntry_limit options);
           qvalues := Some (Object_values conditions) |} ].
Proof.
  split_and!.
  - apply getEntry_whereClause_spec.
  - apply getEntry_orderByClause_spec.
  - rewrite getEntry_issued. unfold getEntry_query.
    by rewrite getEntry_whereClause_spec, getEntry_orderByClause_spec,
      where_arrays_params.
Qed.

(** ** C3: the LIMIT of [getEntry] *)

(** C3, as stated, fails: with [maxEntries = -5] the statement ends in
    [LIMIT -5], not in [LIMIT 1]. *)
Lemma getEntry_limit_negative_counterexample :
  let options := {| fields := None; sort := None; maxEntries := Some (-5)%Z |} in
  spec_limit (maxEntries options) = 1%Z
  ∧ getEntry_limit options = JsNumber (-5)
  ∧ getEntry_limit options ≠ JsNumber (spec_limit (maxEntries options))
  ∧ issued (getEntry "users" [] (pool_of_rows [alice]) options fresh_world).2
    = [ {| qtext := "SELECT * FROM users   LIMIT -5"; qvalues := Some [] |} ].
Proof. by split_and!. Qed.

(** C3, amended.  The LIMIT value embedded in the SELECT statement of
    [getEntry] is [maxEntries] when that is provided and truthy, which for
    an integer means not 0: it is [maxEntries] whenever that is greater
    than 0, and a negative [maxEntries] is embedded unchanged.  It is 1
    when [maxEntries] is absent or 0.  The statement carries the value as
    the template literal renders it. *)
Theorem getEntry_limit_by_truthiness {Store : Type} (tableName : string)
    (conditions : JsObject JsValue) (pool : Pool Store) (options : GetEntryOptions)
    (w : World Store) :
  getEntry_limit options = JsNumber (truthy_limit (maxEntries options))
  ∧ issued (getEntry tableName conditions pool options w).2
    = issued w ++
      [ {| qtext := "SELECT " +:+ getEntry_fields options +:+ " FROM " +:+ tableName
                    +:+ " " +:+ getEntry_whereClause conditions
                    +:+ " " +:+ getEntry_orderByClause options
                    +:+ " LIMIT "
                    +:+ toString (JsNumber (truthy_limit (maxEntries options)));
           qvalues := Some (Object_values conditions) |} ]
  ∧ (∀ n, maxEntries options = Some n → n ≠ 0%Z →
       truthy_limit (maxEntries options) = n)
  ∧ (maxEntries options = None ∨ maxEntries options = Some 0%Z →
       truthy_limit (maxEntries options) = 1%Z).
Proof.
  split_and!.
  - apply getEntry_limit_truthy.
  - rewrite getEntry_issued. unfold getEntry_query.
    by rewrite getEntry_limit_truthy, where_arrays_params.
  - intros n -> Hn. simpl. by rewrite bool_decide_eq_false_2.
  - by intros [-> | ->].
Qed.

Lemma getEntry_limit_by_truthiness_witness :
  issued (getEntry "users" [] (pool_of_rows [alice])
            {| fields := None; sort := None; maxEntries := Some 3%Z |} fresh_world).2
  = [ {| qtext := "SELECT * FROM users   LIMIT 3"; qvalues := Some [] |} ]
  ∧ truthy_limit (Some 3%Z) = 3%Z
  ∧ truthy_limit (Some (-5)%Z) = (-5)%Z
  ∧ truthy_limit None = 1%Z.
Proof.
  pose proof (getEntry_limit_by_truthiness "users" [] (pool_of_rows [alice])
                {| fields := None; sort := None; maxEntries := Some 3%Z |}
                fresh_world) as (_ & Htext & Hpositive & _).
  pose proof (getEntry_limit_by_truthiness "users" [] (pool_of_rows [alice])
                {| fields := None; sort := None; maxEntries := Some (-5)%Z |}
                fresh_world) as (_ & _ & Hnegative & _).
  pose proof (getEntry_limit_by_truthiness "users" [] (pool_of_rows [alice])
                no_options fresh_world) as (_ & _ & _ & Hnone).
  split_and!.
  - exact Htext.
  - apply (Hpositive 3%Z); [reflexivity | discriminate].
  - apply (Hnegative (-5)%Z); [reflexivity | discriminate].
  - apply Hnone. left. reflexivity.
Defined.

(** ** C2: the result of [getEntry] *)

Lemma maxEntries_many (n : Z) :
  truthy (JsNumber n) && js_gt (JsNumber n) 1 = bool_decide (¬ (n ≤ 1)%Z).
Proof.
  simpl. destruct (Z.ltb_spec 1 n) as [Hlt|Hge].
  - rewrite bool_decide_eq_true_2 by lia.
    rewrite (proj2 (Z.eqb_neq n 0)) by lia. done.
  - rewrite bool_decide_eq_false_2 by lia. apply andb_false_r.
Qed.

Lemma first_row_or_null (rs : list Row) :
  (if bool_decide (0 < length rs) then first_row rs else RetNull) = first_or_null rs.
Proof. by destruct rs. Qed.

Lemma rows_or_null (rs : list Row) :
  (if bool_decide (0 < length rs) then RetRows rs else RetNull) = all_or_null rs.
Proof. by destruct rs. Qed.

Lemma getEntry_ok {Store : Type} (tableName : string) (conditions : JsObject JsValue)
    (pool : Pool Store) (options : GetEntryOptions) (w : World Store)
    (result : QueryResult) :
  (exec pool (getEntry_query tableName conditions options) (store w)).1 = inr result →
  (getEntry tableName conditions pool options w).1
  = Normal (spec_shape (maxEntries options) (rows result)).
Proof.
  intros Hok. unfold getEntry, try_catch, await. rewrite (pool_query_ok _ _ _ _ Hok).
  unfold spec_shape. destruct (maxEntries options) as [n|].
  - change (option_value (Some n)) with (JsNumber n). rewrite maxEntries_many.
    destruct (decide (n ≤ 1)%Z) as [Hle|Hgt].
    + rewrite (bool_decide_eq_true_2 _ Hle), bool_decide_eq_false_2 by tauto.
      simpl. by rewrite first_row_or_null.
    + rewrite (bool_decide_eq_false_2 _ Hgt), (bool_decide_eq_true_2 _ Hgt).
      simpl. by rewrite rows_or_null.
  - simpl. by rewrite first_row_or_null.
Qed.

(** C2.  When its query succeeds, [getEntry] returns the first row the pool
    produced, or null when there is none, if [maxEntries] was not supplied
    or is at most 1; it returns the whole array of rows, or null when there
    is none, if [maxEntries] is greater than 1.  It never returns an empty
    array. *)
Theorem getEntry_result_shape {Store : Type} (tableName : string)
    (conditions : JsObject JsValue) (pool : Pool Store) (options : GetEntryOptions)
    (w : World Store) (result : QueryResult) :
  (exec pool (getEntry_query tableName conditions options) (store w)).1 = inr result →
  (getEntry tableName conditions pool options w).1
  = Normal (spec_shape (maxEntries options) (rows result))
  ∧ (getEntry tableName conditions pool options w).1 ≠ Normal (RetRows []).
Proof.
  intros Hok. pose proof (getEntry_ok _ _ _ _ _ _ Hok) as Hshape.
  split; [done |].
  rewrite Hshape. unfold spec_shape, first_or_null, all_or_null.
  by repeat case_match.
Qed.

Lemma getEntry_result_shape_witness :
  (getEntry "users" [] (pool_of_rows [alice; bob])
     {| fields := None; sort := None; maxEntries := Some 3%Z |} fresh_world).1
  = Normal (RetRows [alice; bob])
  ∧ (getEntry "users" [("id", JsNumber 7)] (pool_of_rows []) no_options fresh_world).1
    = Normal RetNull.
Proof.
  split.
  - apply (getEntry_result_shape "users" [] (pool_of_rows [alice; bob])
             {| fields := None; sort := None; maxEntries := Some 3%Z |}
             fresh_world {| rows := [alice; bob]; rowCount := 2 |}). reflexivity.
  - apply (getEntry_result_shape "users" [("id", JsNumber 7)] (pool_of_rows [])
             no_options fresh_world {| rows := []; rowCount := 0 |}). reflexivity.
Defined.

(** ** C4: the statement of [updateRecords] *)

(** C4.  [updateRecords] issues one statement
    [UPDATE <table> SET <set items> <where> RETURNING * ] in which the i-th
    SET item is [col = $(i+1)] and binds the i-th update value, the j-th
    WHERE condition is [col = $(k+j+1)] for [k] update columns and binds
    the j-th condition value, so that the parameter list is the update
    values followed by the condition values; with an empty condition map
    the WHERE clause is the empty string and only the update values are
    bound, so the statement addresses every row of the table. *)
Theorem updateRecords_statement {Store : Type} (tableName : string) (pool : Pool Store)
    (conditions updates : JsObject JsValue) (w : World Store) :
  ∃ (setItems whereItems : list string) (values : list JsValue),
    issued (updateRecords tableName pool conditions updates w).2
    = issued w ++
      [ {| qtext := "UPDATE " +:+ tableName +:+ " SET " +:+ join ", " setItems
                    +:+ " " +:+ (match conditions with
                                 | [] => ""
                                 | _ :: _ => "WHERE " +:+ join " AND " whereItems
                                 end)
                    +:+ " RETURNING * ";
           qvalues := Some values |} ]
    ∧ values = Object_values updates ++ Object_values conditions
    ∧ length setItems = length updates
    ∧ length whereItems = length conditions
    ∧ (∀ i column value, updates !! i = Some (column, value) →
         setItems !! i = Some (column +:+ " = $" +:+ pretty (i + 1))
         ∧ values !! i = Some value)
    ∧ (∀ j column value, conditions !! j = Some (column, value) →
         whereItems !! j = Some (column +:+ " = $" +:+ pretty (length updates + j + 1))
         ∧ values !! (length updates + j) = Some value).
Proof.
  exists (imap (λ index key, key +:+ " = $" +:+ pretty (index + 1)) (Object_keys updates)),
    (imap (λ index key, key +:+ " = $" +:+ pretty (index + 1 + length (Object_keys updates)))
          (Object_keys conditions)),
    (Object_values updates ++ Object_values conditions).
  unfold Object_keys, Object_values.
  split_and!.
  - rewrite updateRecords_issued.
    unfold updateRecords_query, updateRecords_setClause, Object_keys, Object_values.
    destruct conditions as [|entry rest]; simpl; [by rewrite app_nil_r | done].
  - done.
  - by rewrite length_imap, length_fmap.
  - by rewrite length_imap, length_fmap.
  - intros i column value Hi. split.
    + by rewrite list_lookup_imap, list_lookup_fmap, Hi.
    + apply lookup_app_l_Some. by rewrite list_lookup_fmap, Hi.
  - intros j column value Hj. split.
    + rewrite list_lookup_imap, list_lookup_fmap, Hj, length_fmap. simpl.
      by replace (j + 1 + length updates) with (length updates + j + 1) by lia.
    + rewrite lookup_app_r by (rewrite length_fmap; lia).
      rewrite length_fmap, list_lookup_fmap.
      replace (length updates + j - length updates) with j by lia.
      by rewrite Hj.
Qed.

Lemma updateRecords_statement_witness :
  ∃ (setItems whereItems : list string) (values : list JsValue),
    issued (updateRecords "users" (pool_of_rows [bob]) [("id", JsNumber 2)]
              [("name", JsString "Bob"); ("age", JsNumber 30)] fresh_world).2
    = [ {| qtext := "UPDATE users SET " +:+ join ", " setItems +:+ " WHERE "
                    +:+ join " AND " whereItems +:+ " RETURNING * ";
           qvalues := Some values |} ]
    ∧ setItems !! 1 = Some "age = $2" ∧ values !! 1 = Some (JsNumber 30)
    ∧ whereItems !! 0 = Some "id = $3" ∧ values !! 2 = Some (JsNumber 2).
Proof.
  destruct (updateRecords_statement "users" (pool_of_rows [bob]) [("id", JsNumber 2)]
              [("name", JsString "Bob"); ("age", JsNumber 30)] fresh_world)
    as (setItems & whereItems & values & Hissued & _ & _ & _ & Hset & Hwhere).
  exists setItems, whereItems, values.
  destruct (Hset 1 "age" (JsNumber 30) eq_refl) as [Hitem Hvalue].
  destruct (Hwhere 0 "id" (JsNumber 2) eq_refl) as [Hcond Hbound].
  split_and!; [exact Hissued | exact Hitem | exact Hvalue | exact Hcond | exact Hbound].
Defined.

(** ** C5: the existence checks *)

(** C5.  When the catalog query fails, [checkDatabaseExists] resolves to
    false and [checkTableExists] throws the error it caught; when the query
    succeeds, each resolves to true exactly when the result's row count is
    greater than 0. *)
Theorem existence_checks_error_policy {Store : Type} (name schemaName : string)
    (pool : Pool Store) (verbose : bool) (w : World Store) :
  (∀ error,
     (exec pool (checkDatabaseExists_query name) (store w)).1 = inl error →
     (checkDatabaseExists name pool verbose w).1 = Normal false)
  ∧ (∀ error,
     (exec pool (checkTableExists_query name schemaName) (store w)).1 = inl error →
     (checkTableExists name pool schemaName verbose w).1 = Thrown error)
  ∧ (∀ result,
     (exec pool (checkDatabaseExists_query name) (store w)).1 = inr result →
     ∃ found, (checkDatabaseExists name pool verbose w).1 = Normal found
              ∧ (found = true ↔ 0 < rowCount result))
  ∧ (∀ result,
     (exec pool (checkTableExists_query name schemaName) (store w)).1 = inr result →
     ∃ found, (checkTableExists name pool schemaName verbose w).1 = Normal found
              ∧ (found = true ↔ 0 < rowCount result)).
Proof.
  split_and!.
  - intros error Hfail. unfold checkDatabaseExists, try_catch, await.
    rewrite (pool_query_fails _ _ _ _ Hfail). by destruct verbose.
  - intros error Hfail. unfold checkTableExists, try_catch, await.
    rewrite (pool_query_fails _ _ _ _ Hfail). by destruct verbose.
  - intros result Hok. exists (bool_decide (0 < rowCount result)). split.
    + unfold checkDatabaseExists, try_catch, await.
      by rewrite (pool_query_ok _ _ _ _ Hok).
    + apply bool_decide_eq_true.
  - intros result Hok. exists (bool_decide (0 < rowCount result)). split.
    + unfold checkTableExists, try_catch, await.
      by rewrite (pool_query_ok _ _ _ _ Hok).
    + apply bool_decide_eq_true.
Qed.

Lemma existence_checks_error_policy_witness :
  (checkDatabaseExists "shop" failing_pool false fresh_world).1 = Normal false
  ∧ (checkTableExists "users" failing_pool "public" false fresh_world).1
    = Thrown relation_missing
  ∧ (∃ found, (checkTableExists "users" (pool_of_rows [alice]) "public" false
                 fresh_world).1 = Normal found ∧ (found = true ↔ 0 < 1)).
Proof.
  split_and!.
  - apply (existence_checks_error_policy "shop" "public" failing_pool false fresh_world)
      with (error := relation_missing). reflexivity.
  - apply (existence_checks_error_policy "users" "public" failing_pool false fresh_world).
    reflexivity.
  - apply (existence_checks_error_policy "users" "public" (pool_of_rows [alice]) false
             fresh_world) with (result := {| rows := [alice]; rowCount := 1 |}).
    reflexivity.
Defined.

(** ** C6: the statement and the result of [addRow] *)

(** C6.  [addRow] issues one statement
    [INSERT INTO <table> (<columns>) VALUES (<values>) RETURNING *] whose
    column list is the keys of the data map in iteration order and whose
    value list is each value rendered as text between single quotes, in
    the same order; the statement goes to the pool without a parameter
    list, and on success the result is the first row of the pool's answer. *)
Theorem addRow_statement {Store : Type} (tableName : string) (data : JsObject JsValue)
    (pool : Pool Store) (w : World Store) :
  issued (addRow tableName data pool w).2
  = issued w ++
    [ {| qtext := "INSERT INTO " +:+ tableName
                  +:+ " (" +:+ join ", " (Object_keys data)
                  +:+ ") VALUES ("
                  +:+ join ", " ((λ entry, "'" +:+ toString entry.2 +:+ "'") <$> data)
                  +:+ ") RETURNING *";
         qvalues := None |} ]
  ∧ (∀ result row others,
       (exec pool (addRow_query tableName data) (store w)).1 = inr result →
       rows result = row :: others →
       (addRow tableName data pool w).1 = Normal (RetRow row)).
Proof.
  split.
  - rewrite addRow_issued. unfold addRow_query, Object_values.
    by rewrite <- list_fmap_compose.
  - intros result row others Hok Hrows. unfold addRow, try_catch, await.
    rewrite (pool_query_ok _ _ _ _ Hok). simpl. by rewrite Hrows.
Qed.

Lemma addRow_statement_witness :
  issued (addRow "users" [("name", JsString "Alice"); ("age", JsNumber 30)]
            (pool_of_rows [alice]) fresh_world).2
  = [ {| qtext := "INSERT INTO users (name, age) VALUES ('Alice', '30') RETURNING *";
         qvalues := None |} ]
  ∧ (addRow "users" [("name", JsString "Alice"); ("age", JsNumber 30)]
       (pool_of_rows [alice]) fresh_world).1 = Normal (RetRow alice).
Proof.
  destruct (addRow_statement "users" [("name", JsString "Alice"); ("age", JsNumber 30)]
              (pool_of_rows [alice]) fresh_world) as [Hissued Hfirst].
  split.
  - exact Hissued.
  - apply (Hfirst {| rows := [alice]; rowCount := 1 |} alice []); reflexivity.
Defined.

(** ** C8: which errors are wrapped *)

Lemma prefix_append (needle rest : string) : String.prefix needle (needle +:+ rest) = true.
Proof.
  induction needle as [|a needle IH]; simpl.
  - by destruct rest.
  - by destruct (Ascii.ascii_dec a a).
Qed.

Lemma contains_cons (needle : string) (a : Ascii.ascii) (s : string) :
  contains needle (String a s) = String.prefix needle (String a s) || contains needle s.
Proof. reflexivity. Qed.

Lemma contains_here (needle rest : string) : contains needle (needle +:+ rest) = true.
Proof.
  pose proof (prefix_append needle rest) as Hprefix.
  destruct (needle +:+ rest) as [|a s].
  - destruct needle; [done | discriminate].
  - by rewrite contains_cons, Hprefix.
Qed.

Lemma contains_later (needle before s : string) :
  contains needle s = true → contains needle (before +:+ s) = true.
Proof.
  intros Hs. induction before as [|a before IH]; [done |].
  change (String a before +:+ s) with (String a (before +:+ s)).
  rewrite contains_cons, IH. apply orb_true_r.
Qed.

(** C8, as stated, fails for [updateRecords]: the message it wraps the
    underlying error in does not name the table. *)
Lemma updateRecords_error_counterexample :
  let outcome :=
    (updateRecords "users" failing_pool [("id", JsNumber 2)] [("name", JsString "Bob")]
       fresh_world).1 in
  outcome = Thrown (new_Error "Failed to update records: relation does not exist")
  ∧ contains "users" "Failed to update records: relation does not exist" = false
  ∧ ¬ ∃ phrase,
        outcome = Thrown (new_Error ("Failed to " +:+ phrase +:+ " users: "
                                     +:+ message relation_missing)).
Proof.
  split_and!; [done | done |].
  intros [phrase Hform].
  pose proof (f_equal (λ c, match c with
                            | Thrown e => contains "users" (message e)
                            | Normal _ => false
                            end) Hform) as Hnamed.
  change (false = contains "users" ("Failed to " +:+ phrase +:+ " users: "
                                    +:+ message relation_missing)) in Hnamed.
  rewrite (contains_later "users" "Failed to ") in Hnamed; [done |].
  apply (contains_later "users" phrase), (contains_later "users" " ").
  apply (contains_here "users" (": " +:+ message relation_missing)).
Qed.

(** C8, amended.  When the underlying query fails, [getEntry] throws a new
    error with the message "Failed to retrieve entry from <table>:
    <underlying message>", [deleteEntry] one with "Failed to delete entry
    from <table>: <underlying message>", and [updateRecords] one with
    "Failed to update records: <underlying message>", which does not name
    the table; [checkTableExists], [createTable], [getAllFromTable] and
    [addRow] throw the underlying error itself. *)
Theorem error_propagation_policy {Store : Type} (tableName : string) (pool : Pool Store)
    (w : World Store) (error : JsError) :
  (∀ conditions options,
     (exec pool (getEntry_query tableName conditions options) (store w)).1 = inl error →
     (getEntry tableName conditions pool options w).1
     = Thrown (new_Error ("Failed to retrieve entry from " +:+ tableName +:+ ": "
                          +:+ message error)))
  ∧ (∀ conditions options,
     conditions ≠ [] →
     (exec pool (deleteEntry_query tableName conditions options) (store w)).1 = inl error →
     (deleteEntry tableName conditions pool options w).1
     = Thrown (new_Error ("Failed to delete entry from " +:+ tableName +:+ ": "
                          +:+ message error)))
  ∧ (∀ conditions updates,
     (exec pool (updateRecords_query tableName conditions updates) (store w)).1 = inl error →
     (updateRecords tableName pool conditions updates w).1
     = Thrown (new_Error ("Failed to update records: " +:+ message error)))
  ∧ (∀ schemaName verbose,
     (exec pool (checkTableExists_query tableName schemaName) (store w)).1 = inl error →
     (checkTableExists tableName pool schemaName verbose w).1 = Thrown error)
  ∧ (∀ columnsDefinition,
     (exec pool (createTable_query tableName columnsDefinition) (store w)).1 = inl error →
     (createTable tableName pool columnsDefinition w).1 = Thrown error)
  ∧ ((exec pool (getAllFromTable_query tableName) (store w)).1 = inl error →
     (getAllFromTable tableName pool w).1 = Thrown error)
  ∧ (∀ data,
     (exec pool (addRow_query tableName data) (store w)).1 = inl error →
     (addRow tableName data pool w).1 = Thrown error).
Proof.
  split_and!.
  - intros conditions options Hfail. unfold getEntry, try_catch, await.
    by rewrite (pool_query_fails _ _ _ _ Hfail).
  - intros conditions options Hne Hfail. unfold deleteEntry.
    rewrite where_arrays_length, bool_decide_eq_false_2 by (by destruct conditions).
    unfold try_catch, await. by rewrite (pool_query_fails _ _ _ _ Hfail).
  - intros conditions updates Hfail. unfold updateRecords, try_catch, await.
    by rewrite (pool_query_fails _ _ _ _ Hfail).
  - intros schemaName verbose Hfail. unfold checkTableExists, try_catch, await.
    rewrite (pool_query_fails _ _ _ _ Hfail). by destruct verbose.
  - intros columnsDefinition Hfail. unfold createTable, try_catch, await.
    by rewrite (pool_query_fails _ _ _ _ Hfail).
  - intros Hfail. unfold getAllFromTable, try_catch, await.
    by rewrite (pool_query_fails _ _ _ _ Hfail).
  - intros data Hfail. unfold addRow, try_catch, await.
    by rewrite (pool_query_fails _ _ _ _ Hfail).
Qed.

Lemma error_propagation_policy_witness :
  (getEntry "users" [("id", JsNumber 2)] failing_pool no_options fresh_world).1
  = Thrown (new_Error "Failed to retrieve entry from users: relation does not exist")
  ∧ (deleteEntry "users" [("id", JsNumber 2)] failing_pool (mkDeleteOptions None)
       fresh_world).1
    = Thrown (new_Error "Failed to delete entry from users: relation does not exist")
  ∧ (updateRecords "users" failing_pool [("id", JsNumber 2)] [("name", JsString "Bob")]
       fresh_world).1
    = Thrown (new_Error "Failed to update records: relation does not exist")
  ∧ (checkTableExists "users" failing_pool "public" true fresh_world).1
    = Thrown relation_missing
  ∧ (createTable "users" failing_pool "id SERIAL PRIMARY KEY" fresh_world).1
    = Thrown relation_missing
  ∧ (getAllFromTable "users" failing_pool fresh_world).1 = Thrown relation_missing
  ∧ (addRow "users" [("name", JsString "Alice")] failing_pool fresh_world).1
    = Thrown relation_missing.
Proof.
  destruct (error_propagation_policy "users" failing_pool fresh_world relation_missing)
    as (Hget & Hdelete & Hupdate & Htable & Hcreate & Hall & Hadd).
  split_and!.
  - apply (Hget [("id", JsNumber 2)] no_options). reflexivity.
  - apply (Hdelete [("id", JsNumber 2)] (mkDeleteOptions None)).
    + discriminate.
    + reflexivity.
  - apply (Hupdate [("id", JsNumber 2)] [("name", JsString "Bob")]). reflexivity.
  - apply (Htable "public" true). reflexivity.
  - apply (Hcreate "id SERIAL PRIMARY KEY"). reflexivity.
  - apply Hall. reflexivity.
  - apply (Hadd [("name", JsString "Alice")]). reflexivity.
Defined.

(** ** C9: the result of [getAllFromTable] *)

(** C9.  When its query succeeds, [getAllFromTable] returns the array of
    rows exactly as the pool produced it; for a table with no rows that is
    the empty array, neither null nor an error, whereas [getEntry] returns
    null whenever its query succeeds with no rows. *)
Theorem getAllFromTable_returns_rows {Store : Type} (tableName : string)
    (pool : Pool Store) (w : World Store) (result : QueryResult) :
  (exec pool (getAllFromTable_query tableName) (store w)).1 = inr result →
  (getAllFromTable tableName pool w).1 = Normal (RetRows (rows result))
  ∧ (rows result = [] →
     (getAllFromTable tableName pool w).1 = Normal (RetRows [])
     ∧ (getAllFromTable tableName pool w).1 ≠ Normal RetNull
     ∧ (∀ error, (getAllFromTable tableName pool w).1 ≠ Thrown error))
  ∧ (∀ conditions options matched,
     (exec pool (getEntry_query tableName conditions options) (store w)).1 = inr matched →
     rows matched = [] →
     (getEntry tableName conditions pool options w).1 = Normal RetNull).
Proof.
  intros Hok.
  assert ((getAllFromTable tableName pool w).1 = Normal (RetRows (rows result))) as Hrows.
  { unfold getAllFromTable, try_catch, await. by rewrite (pool_query_ok _ _ _ _ Hok). }
  split_and!.
  - exact Hrows.
  - intros Hempty. rewrite Hrows, Hempty. by split_and!.
  - intros conditions options matched Hmatched Hnone.
    rewrite (getEntry_ok _ _ _ _ _ _ Hmatched), Hnone.
    unfold spec_shape. by repeat case_match.
Qed.

Lemma getAllFromTable_returns_rows_witness :
  (getAllFromTable "users" (pool_of_rows []) fresh_world).1 = Normal (RetRows [])
  ∧ (getEntry "users" [] (pool_of_rows []) no_options fresh_world).1 = Normal RetNull.
Proof.
  destruct (getAllFromTable_returns_rows "users" (pool_of_rows []) fresh_world
              {| rows := []; rowCount := 0 |} eq_refl) as (_ & Hempty & Hentry).
  split.
  - apply Hempty. reflexivity.
  - apply (Hentry [] no_options {| rows := []; rowCount := 0 |}); reflexivity.
Defined.

(** ** C10: [updateRecords] when nothing matches *)

Lemma updateRecords_ok {Store : Type} (tableName : string) (pool : Pool Store)
    (conditions updates : JsObject JsValue) (w : World Store) (result : QueryResult) :
  (exec pool (updateRecords_query tableName conditions updates) (store w)).1 = inr result →
  (updateRecords tableName pool conditions updates w).1 = Normal (RetRows (rows result)).
Proof.
  intros Hok. unfold updateRecords, try_catch, await.
  by rewrite (pool_query_ok _ _ _ _ Hok).
Qed.

(** C10.  When the statement of [updateRecords] succeeds and no row
    matched, [updateRecords] returns the empty array: not null, and no
    error is thrown. *)
Theorem updateRecords_zero_match {Store : Type} (tableName : string) (pool : Pool Store)
    (conditions updates : JsObject JsValue) (w : World Store) (result : QueryResult) :
  (exec pool (updateRecords_query tableName conditions updates) (store w)).1 = inr result →
  rows result = [] →
  (updateRecords tableName pool conditions updates w).1 = Normal (RetRows [])
  ∧ (updateRecords tableName pool conditions updates w).1 ≠ Normal RetNull
  ∧ (∀ error, (updateRecords tableName pool conditions updates w).1 ≠ Thrown error).
Proof.
  intros Hok Hempty. rewrite (updateRecords_ok _ _ _ _ _ _ Hok), Hempty.
  by split_and!.
Qed.

Lemma updateRecords_zero_match_witness :
  (updateRecords "users" (pool_of_rows []) [("id", JsNumber 7)] [("name", JsString "Bob")]
     fresh_world).1 = Normal (RetRows []).
Proof.
  apply (updateRecords_zero_match "users" (pool_of_rows []) [("id", JsNumber 7)]
           [("name", JsString "Bob")] fresh_world {| rows := []; rowCount := 0 |});
    reflexivity.
Defined.

(** The copy with named exports behaves otherwise at this point: a
    successful statement that matched no row ends in a wrapped error. *)
Lemma NamedExports_update_without_match_throws {Store : Type} (tableName : string)
    (pool : Pool Store) (conditions updates : JsObject JsValue) (w : World Store)
    (result : QueryResult) :
  (exec pool (updateRecords_query tableName conditions updates) (store w)).1 = inr result →
  rows result = [] →
  (NamedExports.updateRecords tableName pool conditions updates w).1
  = Thrown (new_Error
              "Failed to update records: No records matched the specified conditions").
Proof.
  intros Hok Hempty. unfold NamedExports.updateRecords, try_catch, await.
  by rewrite (pool_query_ok _ _ _ _ Hok), Hempty.
Qed.

(** * Further properties of the helpers *)

(** ** [testDatabaseConnection] *)

(** X1.  [testDatabaseConnection] never throws: it resolves to a boolean,
    which is true exactly when the pool answers the statement
    [SELECT NOW()], the one statement it issues, without parameters. *)
Theorem testDatabaseConnection_never_throws {Store : Type} (pool : Pool Store)
    (verbose : bool) (w : World Store) :
  ∃ alive,
    (testDatabaseConnection pool verbose w).1 = Normal alive
    ∧ (alive = true
       ↔ ∃ result, (exec pool testDatabaseConnection_query (store w)).1 = inr result)
    ∧ issued (testDatabaseConnection pool verbose w).2
      = issued w ++ [ {| qtext := "SELECT NOW()"; qvalues := None |} ].
Proof.
  unfold testDatabaseConnection.
  run_pool pool testDatabaseConnection_query w.
  - exists false. destruct verbose; simpl; split_and!; try done.
    all: split; [done | by intros [? ?]].
  - exists true. split_and!; try done. split; [by eexists | done].
Qed.

(** ** The world after a call *)

(** X2.  The three boolean checks issue one statement each, leave the store
    as that statement left it, and write to the console only when the
    statement failed and [verbose] is set: then one line, the label with
    the error that was caught. *)
Theorem checks_log_only_when_verbose {Store : Type} (pool : Pool Store)
    (name schemaName : string) (verbose : bool) (w : World Store) :
  (testDatabaseConnection pool verbose w).2
  = world_after pool testDatabaseConnection_query
      (if verbose
       then failure_line "Database connection failed:"
              (exec pool testDatabaseConnection_query (store w)).1
       else []) w
  ∧ (checkDatabaseExists name pool verbose w).2
    = world_after pool (checkDatabaseExists_query name)
        (if verbose
         then failure_line "Error checking if database exists:"
                (exec pool (checkDatabaseExists_query name) (store w)).1
         else []) w
  ∧ (checkTableExists name pool schemaName verbose w).2
    = world_after pool (checkTableExists_query name schemaName)
        (if verbose
         then failure_line "Error checking if table exists:"
                (exec pool (checkTableExists_query name schemaName) (store w)).1
         else []) w.
Proof.
  unfold world_after. split_and!.
  - unfold testDatabaseConnection.
    run_pool pool testDatabaseConnection_query w; destruct verbose; simpl;
      by rewrite ?app_nil_r; destruct w.
  - unfold checkDatabaseExists.
    run_pool pool (checkDatabaseExists_query name) w; destruct verbose; simpl;
      by rewrite ?app_nil_r; destruct w.
  - unfold checkTableExists.
    run_pool pool (checkTableExists_query name schemaName) w; destruct verbose; simpl;
      by rewrite ?app_nil_r; destruct w.
Qed.

(** X3.  [createTable], [addRow], [getAllFromTable] and [getTableAsJson]
    issue one statement each and leave the store as that statement left
    it; when the statement failed they write exactly one console line, the
    error under the label of the operation, and none when it succeeded. *)
Theorem rethrowing_operations_log_once {Store : Type} (pool : Pool Store)
    (tableName columnsDefinition : string) (data : JsObject JsValue) (w : World Store) :
  (createTable tableName pool columnsDefinition w).2
  = world_after pool (createTable_query tableName columnsDefinition)
      (failure_line ("Error creating table " +:+ tableName +:+ ":")
         (exec pool (createTable_query tableName columnsDefinition) (store w)).1) w
  ∧ (addRow tableName data pool w).2
    = world_after pool (addRow_query tableName data)
        (failure_line ("Error adding row to table " +:+ tableName +:+ ":")
           (exec pool (addRow_query tableName data) (store w)).1) w
  ∧ (getAllFromTable tableName pool w).2
    = world_after pool (getAllFromTable_query tableName)
        (failure_line "Error fetching data:"
           (exec pool (getAllFromTable_query tableName) (store w)).1) w
  ∧ (getTableAsJson tableName pool w).2
    = world_after pool (getTableAsJson_query tableName)
        (failure_line "Error retrieving table data:"
           (exec pool (getTableAsJson_query tableName) (store w)).1) w.
Proof.
  unfold world_after. split_and!.
  - unfold createTable.
    run_pool pool (createTable_query tableName columnsDefinition) w;
      by rewrite ?app_nil_r; destruct w.
  - unfold addRow.
    run_pool pool (addRow_query tableName data) w; by rewrite ?app_nil_r; destruct w.
  - unfold getAllFromTable.
    run_pool pool (getAllFromTable_query tableName) w; by rewrite ?app_nil_r; destruct w.
  - unfold getTableAsJson.
    run_pool pool (getTableAsJson_query tableName) w; by rewrite ?app_nil_r; destruct w.
Qed.

(** X4.  [getEntry], [deleteEntry] and [updateRecords] never write to the
    console: after a call the world is the one their single statement left.
    Whatever they throw is a fresh error without a code, so the code of a
    database error does not reach the caller. *)
Theorem wrapping_operations_are_silent {Store : Type} (pool : Pool Store)
    (tableName : string) (conditions updates : JsObject JsValue)
    (options : GetEntryOptions) (deleteOptions : DeleteOptions) (w : World Store) :
  (getEntry tableName conditions pool options w).2
  = world_after pool (getEntry_query tableName conditions options) [] w
  ∧ (updateRecords tableName pool conditions updates w).2
    = world_after pool (updateRecords_query tableName conditions updates) [] w
  ∧ (conditions ≠ [] →
     (deleteEntry tableName conditions pool deleteOptions w).2
     = world_after pool (deleteEntry_query tableName conditions deleteOptions) [] w)
  ∧ (∀ error,
       (getEntry tableName conditions pool options w).1 = Thrown error
       ∨ (updateRecords tableName pool conditions updates w).1 = Thrown error
       ∨ (deleteEntry tableName conditions pool deleteOptions w).1 = Thrown error →
       code error = None).
Proof.
  unfold world_after. split_and!.
  - unfold getEntry.
    run_pool pool (getEntry_query tableName conditions options) w;
      rewrite ?app_nil_r; [done |]. by destruct (_ && _).
  - unfold updateRecords.
    run_pool pool (updateRecords_query tableName conditions updates) w;
      by rewrite ?app_nil_r.
  - intros Hne. unfold deleteEntry. rewrite where_arrays_length.
    rewrite bool_decide_eq_false_2 by (by destruct conditions).
    run_pool pool (deleteEntry_query tableName conditions deleteOptions) w;
      by rewrite ?app_nil_r.
  - intros error [Hthrown | [Hthrown | Hthrown]]; revert Hthrown.
    + unfold getEntry.
      run_pool pool (getEntry_query tableName conditions options) w.
      * by intros [= <-].
      * by destruct (_ && _).
    + unfold updateRecords.
      run_pool pool (updateRecords_query tableName conditions updates) w;
        [by intros [= <-] | done].
    + unfold deleteEntry. case_bool_decide; [by intros [= <-] |].
      run_pool pool (deleteEntry_query tableName conditions deleteOptions) w;
        [by intros [= <-] | done].
Qed.

Lemma wrapping_operations_are_silent_witness :
  (deleteEntry "users" [("id", JsNumber 2)] failing_pool (mkDeleteOptions None)
     fresh_world).2
  = mkWorld tt [ {| qtext := "DELETE FROM users WHERE id = $1 ";
                    qvalues := Some [JsNumber 2] |} ] []
  ∧ code (new_Error "Failed to update records: relation does not exist") = None.
Proof.
  destruct (wrapping_operations_are_silent failing_pool "users" [("id", JsNumber 2)]
              [("name", JsString "Bob")] no_options (mkDeleteOptions None) fresh_world)
    as (_ & _ & Hdelete & Hcode).
  split.
  - apply Hdelete. discriminate.
  - apply Hcode. right. left. reflexivity.
Defined.

(** X5.  [getTableAsJson] is [getAllFromTable] under another console
    label: for every pool and world the two send the same statement, end
    with the same store and the same list of issued statements, and resolve
    to the same rows or throw the same error. *)
Theorem getTableAsJson_is_getAllFromTable {Store : Type} (tableName : string)
    (pool : Pool Store) (w : World Store) :
  getTableAsJson_query tableName = getAllFromTable_query tableName
  ∧ (getTableAsJson tableName pool w).1 = (getAllFromTable tableName pool w).1
  ∧ store (getTableAsJson tableName pool w).2 = store (getAllFromTable tableName pool w).2
  ∧ issued (getTableAsJson tableName pool w).2
    = issued (getAllFromTable tableName pool w).2.
Proof.
  split; [done |]. unfold getTableAsJson, getAllFromTable.
  change (getTableAsJson_query tableName) with (getAllFromTable_query tableName).
  by run_pool pool (getAllFromTable_query tableName) w.
Qed.

(** ** The result of [deleteEntry] *)

(** X6.  When the statement of [deleteEntry] succeeds, the result is the
    number of affected rows unless [returning] is true; with [returning]
    true it is the first returned row, or null when no row was returned.
    An absent [returning] counts as false. *)
Theorem deleteEntry_result {Store : Type} (tableName : string)
    (conditions : JsObject JsValue) (pool : Pool Store) (options : DeleteOptions)
    (w : World Store) (result : QueryResult) :
  conditions ≠ [] →
  (exec pool (deleteEntry_query tableName conditions options) (store w)).1 = inr result →
  (deleteEntry tableName conditions pool options w).1
  = Normal (if returning options is Some true
            then first_or_null (rows result)
            else RetCount (rowCount result)).
Proof.
  intros Hne Hok. unfold deleteEntry. rewrite where_arrays_length.
  rewrite bool_decide_eq_false_2 by (by destruct conditions).
  unfold try_catch, await. rewrite (pool_query_ok _ _ _ _ Hok).
  destruct (returning options) as [[|]|]; simpl; [| done | done].
  by destruct (rows result).
Qed.

Lemma deleteEntry_result_witness :
  (deleteEntry "users" [("id", JsNumber 9)] (pool_of_rows []) (mkDeleteOptions (Some true))
     fresh_world).1 = Normal RetNull
  ∧ (deleteEntry "users" [("id", JsNumber 1)] (pool_of_rows [alice]) (mkDeleteOptions None)
       fresh_world).1 = Normal (RetCount 1).
Proof.
  split.
  - apply (deleteEntry_result "users" [("id", JsNumber 9)] (pool_of_rows [])
             (mkDeleteOptions (Some true)) fresh_world {| rows := []; rowCount := 0 |}).
    + discriminate.
    + reflexivity.
  - apply (deleteEntry_result "users" [("id", JsNumber 1)] (pool_of_rows [alice])
             (mkDeleteOptions None) fresh_world {| rows := [alice]; rowCount := 1 |}).
    + discriminate.
    + reflexivity.
Defined.

(** ** The projection of [getEntry] *)

Lemma string_length_pos (s : string) : s ≠ "" → 0 < String.length s.
Proof. destruct s; [done | simpl; lia]. Qed.

Lemma join_empty_inv (sep : string) (l : list string) :
  sep ≠ "" → l ≠ [] → join sep l = "" → l = [""].
Proof.
  intros Hsep Hl Hjoin. destruct l as [|x [|y rest]]; [done | |].
  - simpl in Hjoin. by subst.
  - unfold join in Hjoin. simpl in Hjoin.
    apply append_empty_inv in Hjoin as [_ Hrest].
    by apply append_empty_inv in Hrest as [? _].
Qed.

(** X7.  The projection of [getEntry] is [*] when [fields] is absent, the
    empty string or the empty array; otherwise it is the string itself or
    the array joined by a comma and a space.  A non-empty column name gives
    the same projection as a string and as a one-element array, and the
    projection is the empty string only for the array holding one empty
    name. *)
Theorem getEntry_fields_projection (options : GetEntryOptions) :
  getEntry_fields options
  = match fields options with
    | None | Some (FieldsString "") | Some (FieldsArray []) => "*"
    | Some (FieldsString s) => s
    | Some (FieldsArray l) => join ", " l
    end
  ∧ (∀ s, s ≠ "" →
       fields options = Some (FieldsString s) →
       getEntry_fields options
       = getEntry_fields {| fields := Some (FieldsArray [s]);
                            sort := sort options; maxEntries := maxEntries options |})
  ∧ (getEntry_fields options = "" ↔ fields options = Some (FieldsArray [""])).
Proof.
  unfold getEntry_fields. split_and!.
  - destruct (fields options) as [[s|l]|]; [| by destruct l | done].
    destruct s as [|a s]; [done |].
    rewrite bool_decide_eq_true_2 by (simpl; lia). done.
  - intros s Hs ->. simpl.
    rewrite (proj2 (String.eqb_neq s "") Hs), bool_decide_eq_true_2
      by (by apply string_length_pos).
    done.
  - destruct (fields options) as [[s|l]|]; [| | done].
    + destruct s as [|a s]; [done |].
      rewrite bool_decide_eq_true_2 by (simpl; lia). done.
    + destruct l as [|x rest]; [done |].
      rewrite bool_decide_eq_true_2 by (simpl; lia). split.
      * intros Hjoin. by rewrite (join_empty_inv ", " (x :: rest)).
      * by intros [= -> ->].
Qed.

Lemma getEntry_fields_projection_witness :
  getEntry_fields {| fields := Some (FieldsString "name"); sort := None;
                     maxEntries := None |}
  = getEntry_fields {| fields := Some (FieldsArray ["name"]); sort := None;
                       maxEntries := None |}.
Proof.
  apply (getEntry_fields_projection
           {| fields := Some (FieldsString "name"); sort := None; maxEntries := None |}).
  - discriminate.
  - reflexivity.
Defined.

(** ** The two copies of [getEntry] and [updateRecords] *)

(** X8.  The [getEntry] with [maxEntries] is backward compatible with the
    [getEntry] of the copy with named exports: the older one behaves on any
    options as the newer one does on the same [fields] and [sort] without
    [maxEntries], and the two agree on every pool and world whenever
    [maxEntries] is absent, 0 or 1. *)
Theorem getEntry_backward_compatible {Store : Type} (tableName : string)
    (conditions : JsObject JsValue) (pool : Pool Store) (options : GetEntryOptions)
    (w : World Store) :
  NamedExports.getEntry tableName conditions pool options w
  = getEntry tableName conditions pool
      {| fields := fields options; sort := sort options; maxEntries := None |} w
  ∧ (maxEntries options = None ∨ maxEntries options = Some 0%Z
     ∨ maxEntries options = Some 1%Z →
     NamedExports.getEntry tableName conditions pool options w
     = getEntry tableName conditions pool options w).
Proof.
  split.
  - done.
  - unfold NamedExports.getEntry, getEntry, NamedExports.getEntry_query, getEntry_query,
      getEntry_limit.
    by intros [-> | [-> | ->]].
Qed.

Lemma getEntry_backward_compatible_witness :
  NamedExports.getEntry "users" [("id", JsNumber 1)] (pool_of_rows [alice])
    {| fields := None; sort := None; maxEntries := Some 1%Z |} fresh_world
  = getEntry "users" [("id", JsNumber 1)] (pool_of_rows [alice])
      {| fields := None; sort := None; maxEntries := Some 1%Z |} fresh_world.
Proof.
  apply (getEntry_backward_compatible "users" [("id", JsNumber 1)] (pool_of_rows [alice])
           {| fields := None; sort := None; maxEntries := Some 1%Z |} fresh_world).
  right. right. reflexivity.
Defined.

(** X9.  In the copy with named exports, [updateRecords] throws
    "Failed to update records: No records matched the specified conditions"
    when its statement succeeded without returning a row, after the
    statement went to the pool: the world is the one the statement left.
    When rows are returned it behaves as the other copy does. *)
Theorem NamedExports_updateRecords_outcomes {Store : Type} (tableName : string)
    (pool : Pool Store) (conditions updates : JsObject JsValue) (w : World Store)
    (result : QueryResult) :
  (exec pool (updateRecords_query tableName conditions updates) (store w)).1 = inr result →
  (rows result = [] →
   NamedExports.updateRecords tableName pool conditions updates w
   = (Thrown (new_Error
        "Failed to update records: No records matched the specified conditions"),
      world_after pool (updateRecords_query tableName conditions updates) [] w))
  ∧ (rows result ≠ [] →
     NamedExports.updateRecords tableName pool conditions updates w
     = updateRecords tableName pool conditions updates w).
Proof.
  intros Hok. unfold NamedExports.updateRecords, updateRecords, try_catch, await.
  rewrite (pool_query_ok _ _ _ _ Hok). unfold world_after, after_query. split.
  - intros ->. simpl. by rewrite app_nil_r.
  - intros Hrows. rewrite bool_decide_eq_false_2; [done |].
    by destruct (rows result).
Qed.

Lemma NamedExports_updateRecords_outcomes_witness :
  NamedExports.updateRecords "users" (pool_of_rows []) [("id", JsNumber 7)]
    [("name", JsString "Bob")] fresh_world
  = (Thrown (new_Error
       "Failed to update records: No records matched the specified conditions"),
     mkWorld tt [ {| qtext := "UPDATE users SET name = $1 WHERE id = $2 RETURNING * ";
                     qvalues := Some [JsString "Bob"; JsNumber 7] |} ] [])
  ∧ NamedExports.updateRecords "users" (pool_of_rows [bob]) [("id", JsNumber 2)]
      [("name", JsString "Bob")] fresh_world
    = updateRecords "users" (pool_of_rows [bob]) [("id", JsNumber 2)]
        [("name", JsString "Bob")] fresh_world.
Proof.
  split.
  - apply (NamedExports_updateRecords_outcomes "users" (pool_of_rows [])
             [("id", JsNumber 7)] [("name", JsString "Bob")] fresh_world
             {| rows := []; rowCount := 0 |}); reflexivity.
  - apply (NamedExports_updateRecords_outcomes "users" (pool_of_rows [bob])
             [("id", JsNumber 2)] [("name", JsString "Bob")] fresh_world
             {| rows := [bob]; rowCount := 1 |}); [reflexivity | discriminate].
Defined.

(** ** [createDatabase] *)

(** X10.  [createDatabase] never throws, whatever the driver does: it
    resolves to a boolean, and to true exactly when making the pool, the
    CREATE DATABASE statement and the first [pool.end()] all succeed. *)
Theorem createDatabase_never_throws (driver : PgDriver) (dbInfo : DbInfo)
    (dbName : string) (verbose : bool) (trace : list AdminEvent) :
  ∃ created,
    (createDatabase driver dbInfo dbName verbose trace).1 = Normal created
    ∧ (created = true
       ↔ made_fails driver dbInfo trace = None
         ∧ sent_fails driver dbInfo dbName trace = None
         ∧ ended_fails driver dbInfo dbName trace = None).
Proof.
  destruct verbose; run_driver driver.
  all: eexists; (split; [reflexivity |]).
  all: split; [intros Htrue; try done; by split_and! | by intros (Hmade & Hsent & Hended)].
Qed.

(** X11.  [createDatabase] asks for a pool on the database [postgres].  If
    the pool cannot be made, nothing is sent and nothing is ended.  If it
    can, exactly one statement is sent, CREATE DATABASE with the name
    between quotation marks, and the pool is ended once, or twice when the
    statement succeeded and the first [pool.end()] failed; so a pool that
    was made is never left without a call to end it.  Without [verbose]
    nothing reaches the console. *)
Theorem createDatabase_ends_its_pool (driver : PgDriver) (dbInfo : DbInfo)
    (dbName : string) (verbose : bool) (trace : list AdminEvent) :
  ∃ events,
    (createDatabase driver dbInfo dbName verbose trace).2
    = trace ++ NewPool (createDatabase_config dbInfo) :: events
    ∧ config_database (createDatabase_config dbInfo) = "postgres"
    ∧ (made_fails driver dbInfo trace ≠ None →
       statements_of events = [] ∧ count_ends events = 0)
    ∧ (made_fails driver dbInfo trace = None →
       statements_of events = [createDatabase_text dbName]
       ∧ (count_ends events = 1 ∨ count_ends events = 2)
       ∧ (count_ends events = 2
          ↔ sent_fails driver dbInfo dbName trace = None
            ∧ ended_fails driver dbInfo dbName trace ≠ None))
    ∧ (verbose = false → console_lines_of events = []).
Proof.
  destruct verbose; run_driver driver.
  all: eexists; (split; [rewrite <- ?(assoc_L (++)); simpl; reflexivity |]).
  all: split_and!; [done | intros Hmade | intros Hmade | intros Hquiet]; try done.
  all: split_and!; eauto.
  all: split; [intros Hends; try done; by split | intros [Hsent Hended]; done].
Qed.

Lemma createDatabase_ends_its_pool_witness :
  ∃ events,
    (createDatabase stuck_driver local_admin "shop" false []).2
    = NewPool (createDatabase_config local_admin) :: events
    ∧ statements_of events = [createDatabase_text "shop"]
    ∧ count_ends events = 2
    ∧ console_lines_of events = [].
Proof.
  destruct (createDatabase_ends_its_pool stuck_driver local_admin "shop" false [])
    as (events & Hrun & _ & _ & Hmade & Hquiet).
  exists events. destruct (Hmade eq_refl) as (Hsent & _ & Htwice).
  split_and!; [exact Hrun | exact Hsent | | exact (Hquiet eq_refl)].
  apply Htwice. split; [reflexivity | discriminate].
Defined.

(** ** [config/db.js] *)

(** X12.  The module [config/db.js] awaits both checks before it looks at
    either: the liveness statement and the catalog query are issued in this
    order whatever the first one gives.  The module loads when both
    succeed and the catalog query counts at least one row; it throws
    "Database connection failed" when the liveness statement fails, also
    when the database exists, and "Database <name> doesn't exist" when only
    the catalog check is false.  The one line it logs is the message it
    throws, or the success line. *)
Theorem db_checks_outcome {Store : Type} (db_name : string) (dbPool : Pool Store)
    (w : World Store) :
  let probe := exec dbPool testDatabaseConnection_query (store w) in
  let lookup := exec dbPool (checkDatabaseExists_query db_name) probe.2 in
  let missing := "Database " +:+ db_name +:+ " doesn't exist" in
  issued (db_checks db_name dbPool w).2.1
  = issued w ++ [testDatabaseConnection_query; checkDatabaseExists_query db_name]
  ∧ store (db_checks db_name dbPool w).2.1 = lookup.2
  ∧ console (db_checks db_name dbPool w).2.1 = console w
  ∧ ((db_checks db_name dbPool w).1, (db_checks db_name dbPool w).2.2)
    = match probe.1, lookup.1 with
      | inl _, _ =>
          (Thrown (new_Error "Database connection failed"), ["Database connection failed"])
      | inr _, inr found =>
          if bool_decide (0 < rowCount found)
          then (Normal tt, ["Database connection successful"])
          else (Thrown (new_Error missing), [missing])
      | inr _, inl _ => (Thrown (new_Error missing), [missing])
      end.
Proof.
  unfold db_checks, testDatabaseConnection, checkDatabaseExists, try_catch, await,
    pool_query, resolve, throw, when. simpl.
  destruct (exec dbPool testDatabaseConnection_query (store w)) as [[e1|r1] s1]; simpl;
    destruct (exec dbPool (checkDatabaseExists_query db_name) s1) as [[e2|r2] s2]; simpl;
    rewrite <- ?(assoc_L (++)); try done.
  all: by case_bool_decide.
Qed.

(** ** [addRow] when no row comes back *)

(** X13.  [addRow] reads the first row of the answer without looking at
    its length: when the statement succeeds and the answer holds no row,
    [addRow] resolves to undefined, neither to null nor to an error, where
    [getEntry] and [deleteEntry] with [returning] resolve to null. *)
Theorem addRow_without_row {Store : Type} (tableName : string) (data : JsObject JsValue)
    (pool : Pool Store) (w : World Store) (result : QueryResult) :
  (exec pool (addRow_query tableName data) (store w)).1 = inr result →
  rows result = [] →
  (addRow tableName data pool w).1 = Normal RetUndefined
  ∧ (∀ conditions options matched,
       (exec pool (getEntry_query tableName conditions options) (store w)).1
       = inr matched →
       rows matched = [] →
       (getEntry tableName conditions pool options w).1 = Normal RetNull)
  ∧ (∀ conditions deleted,
       conditions ≠ [] →
       (exec pool (deleteEntry_query tableName conditions (mkDeleteOptions (Some true)))
          (store w)).1 = inr deleted →
       rows deleted = [] →
       (deleteEntry tableName conditions pool (mkDeleteOptions (Some true)) w).1
       = Normal RetNull).
Proof.
  intros Hok Hempty. split_and!.
  - unfold addRow, try_catch, await. rewrite (pool_query_ok _ _ _ _ Hok).
    simpl. by rewrite Hempty.
  - intros conditions options matched Hmatched Hnone.
    rewrite (getEntry_ok _ _ _ _ _ _ Hmatched), Hnone.
    unfold spec_shape. by repeat case_match.
  - intros conditions deleted Hne Hdeleted Hnone. unfold deleteEntry.
    rewrite where_arrays_length, bool_decide_eq_false_2 by (by destruct conditions).
    unfold try_catch, await. rewrite (pool_query_ok _ _ _ _ Hdeleted).
    simpl. by rewrite Hnone.
Qed.

Lemma addRow_without_row_witness :
  (addRow "users" [("name", JsString "Alice")] (pool_of_rows []) fresh_world).1
  = Normal RetUndefined.
Proof.
  apply (addRow_without_row "users" [("name", JsString "Alice")] (pool_of_rows [])
           fresh_world {| rows := []; rowCount := 0 |}); reflexivity.
Defined.
